(** * stylelint, rule [color-named]: a shallow embedding of
    [lib/rules/color-named/index.js] and the properties of its matcher.

    The rule requires a dozen modules ([namedColorData], [generateColorFuncs],
    [keywordSets], [propertySets], [optionsMatches], [validateOptions], the two
    syntax classifiers, [declarationValueIndex], [ruleMessages], [report] and
    the value parser).  They are the fields of the class [Requires]; the rule
    is written once over that class, and every theorem of the section
    [Properties] holds for all implementations of the required modules.
    The module [Model] gives one implementation, small enough to evaluate,
    on which the general theorems are instantiated. *)

From Stdlib Require Import Ascii String List NArith Lia.
From stdpp Require Import base decidable option list strings gmap pretty.

Set Warnings "-register-all".
Local Open Scope string_scope.
Local Open Scope list_scope.

(** ** JavaScript strings

    A string is the sequence of its code units.  The model covers the code
    units below 256 (one [ascii] each); the reference data of the rule, the
    function names and the hex spellings are all written in that range. *)

Module JsString.

(** [String.prototype.toLowerCase] on one code unit: the letters A-Z and
    the Latin-1 capitals (U+00C0-U+00D6, U+00D8-U+00DE) move up by 32. *)
Definition lowerChar (c : ascii) : ascii :=
  let n := N_of_ascii c in
  if ((65 <=? n) && (n <=? 90) || (192 <=? n) && (n <=? 214)
      || (216 <=? n) && (n <=? 222))%N
  then ascii_of_N (n + 32) else c.

Fixpoint toLowerCase (s : string) : string :=
  match s with
  | EmptyString => EmptyString
  | String c s' => String (lowerChar c) (toLowerCase s')
  end.

(** The class [\s] of a regular expression, below 256: TAB, LF, VT, FF, CR,
    SPACE and NO-BREAK SPACE. *)
Definition isSpace (c : ascii) : bool :=
  let n := N_of_ascii c in
  ((9 <=? n) && (n <=? 13) || (n =? 32) || (n =? 160))%N.

(** [s.replace(/\s+/g, '')]: every maximal run of white space is replaced
    by the empty string, that is, every white-space code unit is dropped. *)
Fixpoint removeSpaces (s : string) : string :=
  match s with
  | EmptyString => EmptyString
  | String c s' =>
      if isSpace c then removeSpaces s' else String c (removeSpaces s')
  end.

(** [Array.prototype.includes] on an array of strings. *)
Definition includes (l : list string) (x : string) : bool :=
  bool_decide (x ∈ l).

(** The double quote, as a one-character string. *)
Definition dquote : string := String (ascii_of_N 34) EmptyString.

End JsString.

Import JsString.

(** ** Objects used as tables

    [namedColorData] (the reference module) is an object literal: what the
    rule uses of it is the order of its keys ([Object.keys]) and the lookup
    by key.  An association list keeps both. *)

Module JsObject.

Definition keys {A} (o : list (string * A)) : list string := map fst o.

Fixpoint get {A} (o : list (string * A)) (k : string) : option A :=
  match o with
  | [] => None
  | (k', v) :: o' => if bool_decide (k' = k) then Some v else get o' k
  end.

End JsObject.

(** ** The data the rule handles *)

(** A postcss declaration: [decl.prop] and [decl.value]. *)
Record Decl := mkDecl { prop : string; declValue : string }.

(** A node of the value parser: [node.type], [node.value],
    [node.sourceIndex], the children [node.nodes] of a function node, and
    [stringify], the text [valueParser.stringify(node)] returns for it (the
    text of the node as it stands in the declaration value). *)
Inductive Node := mkNode {
  type : string;
  value : string;
  sourceIndex : nat;
  stringify : string;
  nodes : list Node
}.

(** One call of [report]: the message, the node it is attached to (the
    declaration) and the index. *)
Record Problem := mkProblem { message : string; node : Decl; index : nat }.

(** What the two walkers do, in order: [walkDecls] hands a declaration to
    its callback, [walk] hands a node to its callback, and the callback
    calls [report]. *)
Inductive Event :=
| VisitDecl (d : Decl)
| VisitNode (n : Node)
| Report (p : Problem).

Definition reports (t : list Event) : list Problem :=
  omap (fun e => match e with Report p => Some p | _ => None end) t.

(** The functions [isString] and [isRegExp] of [utils/validateTypes], as
    they appear in the description of the secondary options. *)
Inductive TypeCheck := isString | isRegExp.

(** The third and fourth arguments of the call of [validateOptions]. *)
Record PrimaryCheck := mkPrimaryCheck {
  primaryActual : string;
  primaryPossible : list string
}.

Record SecondaryPossible := mkSecondaryPossible {
  possibleIgnoreProperties : list TypeCheck;
  possibleIgnore : list string
}.

Record SecondaryCheck (O : Type) := mkSecondaryCheck {
  secondaryActual : O;
  secondaryPossible : SecondaryPossible;
  optional : bool
}.
Arguments mkSecondaryCheck {O}.
Arguments secondaryActual {O}.
Arguments secondaryPossible {O}.
Arguments optional {O}.

(** ** The required modules *)

Class Requires := {
  (** the type of [secondaryOptions]; the rule only passes it on *)
  SecondaryOptions : Type;
  (** [reference/namedColorData]: name -> hex spellings, in source order *)
  namedColorDataHex : list (string * list string);
  (** [./generateColorFuncs], applied to [hex[0]] ([None]: [undefined]) *)
  generateColorFuncs : option string -> list string;
  (** [keywordSets.colorFunctionNames] *)
  colorFunctionNames : gset string;
  (** [propertySets.acceptCustomIdents] *)
  acceptCustomIdents : gset string;
  (** [utils/optionsMatches] *)
  optionsMatches : SecondaryOptions -> string -> string -> bool;
  (** [utils/validateOptions]: rule name, primary check, secondary check *)
  validateOptions :
    string -> PrimaryCheck -> SecondaryCheck SecondaryOptions -> bool;
  (** [utils/isStandardSyntaxFunction] and [utils/isStandardSyntaxValue] *)
  isStandardSyntaxFunction : Node -> bool;
  isStandardSyntaxValue : string -> bool;
  (** [utils/declarationValueIndex] *)
  declarationValueIndex : Decl -> nat;
  (** [utils/ruleMessages]: what it makes of the text a message function
      of the rule returns *)
  ruleMessages : string -> string -> string;
  (** [postcss-value-parser]: the top-level nodes of a declaration value *)
  valueParser : string -> list Node
}.

(** [valueParser(...).walk(cb)]: the callback is called on every node in
    order; the children of a function node are walked after it unless the
    callback returned [false].  The callback is given as a function to the
    problems it reports and to [result !== false]. *)
Fixpoint walkNode (cb : Node -> list Problem * bool) (n : Node) : list Event :=
  match n with
  | mkNode ty _ _ _ kids =>
      VisitNode n :: map Report (cb n).1 ++
      (if (cb n).2 && bool_decide (ty = "function")
       then flat_map (walkNode cb) kids else [])
  end.

Definition walk (cb : Node -> list Problem * bool) (l : list Node)
  : list Event :=
  flat_map (walkNode cb) l.

(** [root.walkDecls(cb)], on the declarations of the style sheet in the
    order postcss visits them. *)
Definition walkDecls (cb : Decl -> list Event) (root : list Decl)
  : list Event :=
  flat_map (fun d => VisitDecl d :: cb d) root.

(** The nodes [walk] reaches when its callback never returns [false], in
    the order it reaches them: a node, then, for a function node, the nodes
    of its children. *)
Fixpoint subtree (n : Node) : list Node :=
  match n with
  | mkNode ty _ _ _ kids =>
      n :: (if bool_decide (ty = "function")
            then flat_map subtree kids else [])
  end.

Definition allNodes (l : list Node) : list Node := flat_map subtree l.

(** ** The rule *)

Section Rule.

Context `{R : Requires}.

Definition ruleName : string := "color-named".

(** Lines 20-23: [messages.expected] and [messages.rejected]. *)
Definition messages_expected (named original : string) : string :=
  ruleMessages ruleName
    ("Expected " +:+ dquote +:+ original +:+ dquote +:+ " to be "
       +:+ dquote +:+ named +:+ dquote).

Definition messages_rejected (named : string) : string :=
  ruleMessages ruleName
    ("Unexpected named color " +:+ dquote +:+ named +:+ dquote).

(** Line 26. *)
Definition NODE_TYPES : gset string := {[ "word"; "function" ]}.

(** Line 52. *)
Definition namedColors : list string := JsObject.keys namedColorDataHex.

(** Lines 54-64.  The object [namedColorData] is only read by key, so a
    finite map models it.  The [None] branch is never taken: [name] is a key
    of [namedColorDataHex]. *)
Record ColorData := mkColorData { hex : list string; func : list string }.

Definition namedColorData : gmap string ColorData :=
  foldl (fun data name =>
           match JsObject.get namedColorDataHex name with
           | Some hex =>
               <[name := mkColorData hex (generateColorFuncs (head hex))]> data
           | None => data
           end)
        ∅ namedColors.

(** [namedColorData[namedColor].func] and [namedColorData[namedColor].hex],
    read for the keys of [namedColors] only. *)
Definition funcOf (namedColor : string) : list string :=
  match namedColorData !! namedColor with Some d => func d | None => [] end.

Definition hexOf (namedColor : string) : list string :=
  match namedColorData !! namedColor with Some d => hex d | None => [] end.

(** Lines 150-158: [complain] calls [report] once. *)
Definition complain (message : string) (node : Decl) (index : nat)
  : list Problem :=
  [mkProblem message node index].

(** Lines 98-142: the decision of the callback once a node has passed the
    gates of lines 81-96.  Each [for (...) { if (...) { complain(...);
    return } }] is a [find] over [namedColors]: the first name that passes
    the test is reported and the loop is left. *)
Definition classify (primary : string) (decl : Decl) (n : Node)
  : list Problem :=
  let value := value n in
  let type := type n in
  let sourceIndex := sourceIndex n in
  if bool_decide (primary = "never") && bool_decide (type = "word")
     && includes namedColors (toLowerCase value)
  then complain (messages_rejected value) decl
         (declarationValueIndex decl + sourceIndex)
  else if negb (bool_decide (primary = "always-where-possible")) then []
  else if bool_decide (type = "function")
          && bool_decide (toLowerCase value ∈ colorFunctionNames)
  then
    let normalizedFunctionString := removeSpaces (stringify n) in
    match find (fun namedColor =>
                  includes (funcOf namedColor)
                    (toLowerCase normalizedFunctionString))
               namedColors with
    | Some namedColor =>
        complain (messages_expected namedColor normalizedFunctionString) decl
          (declarationValueIndex decl + sourceIndex)
    | None => []
    end
  else
    match find (fun namedColor =>
                  includes (hexOf namedColor) (toLowerCase value))
               namedColors with
    | Some namedColor =>
        complain (messages_expected namedColor value) decl
          (declarationValueIndex decl + sourceIndex)
    | None => []
    end.

(** Lines 76-142: the callback of [walk].  The second component is
    [false] where the callback returns [false]. *)
Definition visit (primary : string) (secondaryOptions : SecondaryOptions)
    (decl : Decl) (n : Node) : list Problem * bool :=
  if optionsMatches secondaryOptions "ignore" "inside-function"
     && bool_decide (type n = "function")
  then ([], false)
  else if negb (isStandardSyntaxFunction n) then ([], false)
  else if negb (isStandardSyntaxValue (value n)) then ([], true)
  else if negb (bool_decide (type n ∈ NODE_TYPES)) then ([], true)
  else (classify primary decl n, true).

(** Lines 66-143: the callback of [walkDecls]. *)
Definition checkDecl (primary : string) (secondaryOptions : SecondaryOptions)
    (decl : Decl) : list Event :=
  if bool_decide (prop decl ∈ acceptCustomIdents) then []
  else if optionsMatches secondaryOptions "ignoreProperties" (prop decl)
  then []
  else walk (visit primary secondaryOptions decl)
         (valueParser (declValue decl)).

(** Lines 29-160: the rule, applied to its options and to a root. *)
Definition rule (primary : string) (secondaryOptions : SecondaryOptions)
    (root : list Decl) : list Event :=
  let validOptions :=
    validateOptions ruleName
      (mkPrimaryCheck primary ["never"; "always-where-possible"])
      (mkSecondaryCheck secondaryOptions
         (mkSecondaryPossible [isString; isRegExp] ["inside-function"])
         true) in
  if negb validOptions then []
  else walkDecls (checkDecl primary secondaryOptions) root.

(** *** The vocabulary of the specification *)

(** [c.hexForms]: the spellings the catalogue lists for [c]. *)
Definition hexForms (c : string) : list string :=
  default [] (JsObject.get namedColorDataHex c).

(** [c.functionForms]: what the generator makes of the first spelling. *)
Definition functionForms (c : string) : list string :=
  generateColorFuncs (head (hexForms c)).

(** The text a token is compared by, and the text quoted as the original:
    for a colour function, the text of the node without white space; for
    any other token, [node.value].  The comparison lowercases it. *)
Definition isColorFunction (n : Node) : bool :=
  bool_decide (type n = "function")
  && bool_decide (toLowerCase (value n) ∈ colorFunctionNames).

Definition original (n : Node) : string :=
  if isColorFunction n then removeSpaces (stringify n) else value n.

(** The token [n] matches a form of the named colour [c]. *)
Definition tokenMatches (c : string) (n : Node) : bool :=
  if isColorFunction n
  then includes (functionForms c) (toLowerCase (original n))
  else includes (hexForms c) (toLowerCase (original n)).

(** [c] is the first name of the catalogue, in the order of its keys, for
    which [test] holds. *)
Definition firstName (test : string -> bool) (c : string) : Prop :=
  exists i, namedColors !! i = Some c /\ test c = true /\
    forall j c', j < i -> namedColors !! j = Some c' -> test c' = false.

(** The violation "expected [c]" for the token [n] of [decl]. *)
Definition expectedProblem (decl : Decl) (n : Node) (c quoted : string)
  : Problem :=
  mkProblem (messages_expected c quoted) decl
    (declarationValueIndex decl + sourceIndex n).

(** What a token yields: the violation "expected [c]", quoting the
    original text of the token, when a name [c] is suggested, and nothing
    otherwise. *)
Definition expectedOutcome (decl : Decl) (n : Node)
    (suggested : option string) : list Problem :=
  match suggested with
  | Some c => [expectedProblem decl n c (original n)]
  | None => []
  end.

(** A catalogue as the specification describes it: every name is written
    in the letters a-z, and every spelling is a number sign followed by
    the hex digits 0-9 and a-f. *)
Definition isLowerLetter (c : ascii) : bool :=
  let n := N_of_ascii c in ((97 <=? n) && (n <=? 122))%N.

Definition isColorName (s : string) : bool :=
  forallb isLowerLetter (list_ascii_of_string s).

Definition isLowerHexDigit (c : ascii) : bool :=
  let n := N_of_ascii c in
  ((48 <=? n) && (n <=? 57) || (97 <=? n) && (n <=? 102))%N.

Definition isHexSpelling (s : string) : bool :=
  match s with
  | String c digits =>
      bool_decide (c = ascii_of_N 35)
      && forallb isLowerHexDigit (list_ascii_of_string digits)
  | EmptyString => false
  end.

Definition catalogWellFormed : bool :=
  forallb (fun entry => isColorName entry.1 && forallb isHexSpelling entry.2)
    namedColorDataHex.

End Rule.

(** ** One implementation of the required modules

    None of the required modules is part of the rule's file.  The module
    below implements each of them as the specification describes it, with
    a catalogue of four names; the general theorems are instantiated on
    it. *)

Module Model.

(** *** The catalogue and the generator *)

(** Modelled from the spec: the named colour catalogue, missing from the
    sources ("a static mapping from lowercase name to an ordered sequence of
    hex-string spellings", "gray"/"grey" sharing one RGB triple, [#f00]
    denoting red).  Four of its entries, the six-digit spelling first. *)
Definition catalog : list (string * list string) :=
  [ ("black", ["#000000"; "#000"]);
    ("gray", ["#808080"]);
    ("grey", ["#808080"]);
    ("red", ["#ff0000"; "#f00"]) ].

(** Modelled from the spec: the set of colour-function names, missing from
    the sources ("the rgb family"). *)
Definition functionNames : list string := ["rgb"; "rgba"].

Definition hexDigit (c : ascii) : option N :=
  let n := N_of_ascii c in
  if ((48 <=? n) && (n <=? 57))%N then Some (n - 48)%N
  else if ((97 <=? n) && (n <=? 102))%N then Some (n - 87)%N
  else None.

Definition channel (hi lo : ascii) : option N :=
  h ← hexDigit hi; l ← hexDigit lo; Some (16 * h + l)%N.

Definition channels (hex : string) : option (N * N * N) :=
  match hex with
  | String c0 (String r1 (String r2 (String g1 (String g2
      (String b1 (String b2 EmptyString)))))) =>
      if bool_decide (c0 = ascii_of_N 35)
      then r ← channel r1 r2; g ← channel g1 g2; b ← channel b1 b2;
           Some (r, g, b)
      else None
  | _ => None
  end.

Definition decimal (n : N) : string := pretty n.

(** A channel as a percentage, when it is a whole one. *)
Definition percentage (c : N) : option string :=
  if ((c * 100) mod 255 =? 0)%N
  then Some (decimal (c * 100 / 255) +:+ "%") else None.

(** Modelled from the spec: the representation generator, missing from the
    sources ("the integer-channel and percentage-channel 3-argument
    functional form for each function name considered a color function";
    "channel values that round unevenly between integer and percentage
    representations are excluded"; every string "whitespace-free and
    lowercase"). *)
Definition generate (hex : option string) : list string :=
  match hex ≫= channels with
  | None => []
  | Some (r, g, b) =>
      let integers := decimal r +:+ "," +:+ decimal g +:+ "," +:+ decimal b in
      let percentages :=
        match percentage r, percentage g, percentage b with
        | Some pr, Some pg, Some pb => [pr +:+ "," +:+ pg +:+ "," +:+ pb]
        | _, _, _ => []
        end in
      flat_map (fun name =>
                  map (fun args => name +:+ "(" +:+ args +:+ ")")
                      (integers :: percentages))
               functionNames
  end.

(** Modelled from the spec: the set of properties that accept custom
    identifiers, missing from the sources; two such properties. *)
Definition customIdentProperties : list string :=
  ["animation-name"; "font-family"].

(** *** The secondary options *)

(** An element of [ignoreProperties]: a string, a regular expression (by
    its test), or a value that is neither. *)
Inductive Pattern :=
| PString (s : string)
| PRegExp (test : string -> bool)
| POther.

(** [secondaryOptions]: [None] is [undefined]; so is a missing key. *)
Record Options := mkOptions {
  ignoreProperties : option (list Pattern);
  ignore : option (list string)
}.

Definition patternMatches (input : string) (p : Pattern) : bool :=
  match p with
  | PString s => bool_decide (s = input)
  | PRegExp test => test input
  | POther => false
  end.

(** Modelled from the spec: [optionsMatches], missing from the sources
    ("property matches a configured ignore-list", "configured to ignore
    tokens nested inside any function"): the option named [propertyName]
    is given and one of its elements matches [input]. *)
Definition matches (options : option Options) (propertyName input : string)
  : bool :=
  match options with
  | None => false
  | Some o =>
      if bool_decide (propertyName = "ignoreProperties")
      then existsb (patternMatches input) (default [] (ignoreProperties o))
      else if bool_decide (propertyName = "ignore")
      then existsb (fun s => bool_decide (s = input)) (default [] (ignore o))
      else false
  end.

Definition passes (t : TypeCheck) (p : Pattern) : bool :=
  match t, p with
  | isString, PString _ => true
  | isRegExp, PRegExp _ => true
  | _, _ => false
  end.

(** Modelled from the spec: [validateOptions], missing from the sources
    ("mode in {never, always-where-possible} (required, exactly one);
    ignoreProperties: sequence of (string | pattern) (optional); ignore:
    sequence containing optionally inside-function (optional)"). *)
Definition validate (_ : string) (p : PrimaryCheck)
    (s : SecondaryCheck (option Options)) : bool :=
  bool_decide (primaryActual p ∈ primaryPossible p)
  && match secondaryActual s with
     | None => optional s
     | Some o =>
         forallb (fun x =>
                    existsb (fun t => passes t x)
                      (possibleIgnoreProperties (secondaryPossible s)))
                 (default [] (ignoreProperties o))
         && forallb (fun x =>
                       bool_decide (x ∈ possibleIgnore (secondaryPossible s)))
                    (default [] (ignore o))
     end.

(** *** The syntax classifiers *)

Fixpoint hasInterpolation (s : string) : bool :=
  match s with
  | EmptyString => false
  | String c s' =>
      match s' with
      | String c' _ =>
          bool_decide (c = ascii_of_N 35) && bool_decide (c' = ascii_of_N 123)
          || hasInterpolation s'
      | EmptyString => false
      end
  end.

(** Modelled from the spec: the two syntax classifiers, missing from the
    sources ("non-standard syntax, e.g. preprocessor interpolations, is
    always skipped"). *)
Definition standardValue (v : string) : bool := negb (hasInterpolation v).

Definition standardFunction (n : Node) : bool :=
  negb (hasInterpolation (value n)).

(** *** The value parser *)

(** A function whose closing parenthesis has not been read yet: its name,
    where it starts, and its children so far, last first. *)
Record Frame := mkFrame {
  frameName : string;
  frameStart : nat;
  frameNodes : list Node
}.

(** The state of the parser: the run of characters being read (white space
    or word, with its start and text), the open functions, innermost first,
    and the top-level nodes so far, last first. *)
Record Parser := mkParser {
  pending : option (bool * nat * string);
  frames : list Frame;
  top : list Node
}.

Definition push (n : Node) (st : Parser) : Parser :=
  match frames st with
  | f :: fs =>
      mkParser (pending st)
        (mkFrame (frameName f) (frameStart f) (n :: frameNodes f) :: fs)
        (top st)
  | [] => mkParser (pending st) [] (n :: top st)
  end.

Definition flush (st : Parser) : Parser :=
  match pending st with
  | None => st
  | Some (space, start, text) =>
      push (mkNode (if space then "space" else "word") text start text [])
        (mkParser None (frames st) (top st))
  end.

Definition functionNode (f : Frame) (closed : bool) : Node :=
  let kids := rev (frameNodes f) in
  mkNode "function" (frameName f) (frameStart f)
    (frameName f +:+ "(" +:+ String.concat "" (map stringify kids)
       +:+ (if closed then ")" else ""))
    kids.

Definition extend (space : bool) (pos : nat) (c : ascii) (st : Parser)
  : Parser :=
  match pending st with
  | Some (space', start, text) =>
      if bool_decide (space' = space)
      then mkParser (Some (space, start, text +:+ String c EmptyString))
             (frames st) (top st)
      else
        let st' := flush st in
        mkParser (Some (space, pos, String c EmptyString))
          (frames st') (top st')
  | None => mkParser (Some (space, pos, String c EmptyString))
              (frames st) (top st)
  end.

Definition step (pos : nat) (c : ascii) (st : Parser) : Parser :=
  if bool_decide (c = ascii_of_N 40) then
    match pending st with
    | Some (false, start, text) =>
        mkParser None (mkFrame text start [] :: frames st) (top st)
    | _ =>
        let st' := flush st in
        mkParser None (mkFrame "" pos [] :: frames st') (top st')
    end
  else if bool_decide (c = ascii_of_N 41) then
    let st' := flush st in
    match frames st' with
    | f :: fs => push (functionNode f true) (mkParser None fs (top st'))
    | [] => extend false pos c st
    end
  else if isSpace c then extend true pos c st
  else if bool_decide (c = ascii_of_N 44) || bool_decide (c = ascii_of_N 47)
  then
    push (mkNode "div" (String c EmptyString) pos (String c EmptyString) [])
      (flush st)
  else extend false pos c st.

Fixpoint run (pos : nat) (s : string) (st : Parser) : Parser :=
  match s with
  | EmptyString => flush st
  | String c s' => run (S pos) s' (step pos c st)
  end.

(** At the end of the value, the functions still open are left unclosed. *)
Fixpoint unwind (fs : list Frame) (tops : list Node) (inner : option Node)
  : list Node :=
  match fs with
  | [] => match inner with Some n => n :: tops | None => tops end
  | f :: fs' =>
      let f' :=
        match inner with
        | Some n => mkFrame (frameName f) (frameStart f) (n :: frameNodes f)
        | None => f
        end in
      unwind fs' tops (Some (functionNode f' false))
  end.

(** Modelled from the spec: the value parser, a library outside the
    repository ("given a property's raw value string, yields a sequence of
    nodes, each with type, value and sourceIndex"): words, runs of white
    space, the dividers [,] and [/], and functions with their children. *)
Definition parse (v : string) : list Node :=
  let st := run 0 v (mkParser None [] []) in
  rev (unwind (frames st) (top st) None).

(** *** The instance *)

(** Modelled from the spec: [declarationValueIndex], [ruleMessages] and
    [report], missing from the sources: offsets are counted from the start
    of the declaration value, and the message is the text the rule builds
    (the scenarios of the specification: "Unexpected named color red at
    offset 0"). *)
#[export] Instance requires : Requires := {|
  SecondaryOptions := option Options;
  namedColorDataHex := catalog;
  generateColorFuncs := generate;
  colorFunctionNames := list_to_set functionNames;
  acceptCustomIdents := list_to_set customIdentProperties;
  optionsMatches := matches;
  validateOptions := validate;
  isStandardSyntaxFunction := standardFunction;
  isStandardSyntaxValue := standardValue;
  declarationValueIndex := fun _ => 0;
  ruleMessages := fun _ text => text;
  valueParser := parse
|}.

(** The tokens of the scenarios. *)
Definition word (text : string) (at_ : nat) : Node :=
  mkNode "word" text at_ text [].

Definition call (name text : string) (at_ : nat) (kids : list Node) : Node :=
  mkNode "function" name at_ text kids.

Definition color (v : string) : Decl := mkDecl "color" v.

(** A text between double quotes, as the messages quote it. *)
Definition quoted (s : string) : string := dquote +:+ s +:+ dquote.

(** The secondary options [{ ignore: ["inside-function"] }]. *)
Definition insideFunction : option Options :=
  Some (mkOptions None (Some ["inside-function"])).

End Model.

(** * Properties *)

(** ** Strings and tables *)

Lemma lowerChar_fixed c :
  (let n := N_of_ascii c in
   (n < 65 \/ 90 < n) /\ (n < 192 \/ n = 215 \/ 222 < n))%N ->
  lowerChar c = c.
Proof.
  unfold lowerChar. simpl. intros [H1 H2].
  destruct (_ && _ || _ && _ || _ && _)%N eqn:E; [|done].
  exfalso.
  repeat (apply orb_prop in E as [E|E]);
    apply andb_prop in E as [E1 E2]; apply N.leb_le in E1, E2; lia.
Qed.

Lemma lowerChar_lower_letter c : isLowerLetter c = true -> lowerChar c = c.
Proof.
  unfold isLowerLetter. intros [H1 H2]%andb_prop.
  apply N.leb_le in H1, H2. apply lowerChar_fixed. simpl. lia.
Qed.

Lemma lowerChar_hex_digit c : isLowerHexDigit c = true -> lowerChar c = c.
Proof.
  unfold isLowerHexDigit. intros H. apply lowerChar_fixed. simpl.
  apply orb_prop in H as [H|H]; apply andb_prop in H as [H1 H2];
    apply N.leb_le in H1, H2; lia.
Qed.

Lemma toLowerCase_color_name s : isColorName s = true -> toLowerCase s = s.
Proof.
  unfold isColorName. induction s as [|c s IH]; simpl; [done|].
  intros [Hc Hs]%andb_prop.
  by rewrite lowerChar_lower_letter, IH.
Qed.

Lemma toLowerCase_hex_spelling s : isHexSpelling s = true -> toLowerCase s = s.
Proof.
  destruct s as [|c s]; simpl; [done|].
  intros [Hc Hs]%andb_prop. apply bool_decide_eq_true in Hc as ->.
  f_equal. induction s as [|c s IH]; simpl in *; [done|].
  apply andb_prop in Hs as [Hc Hs].
  by rewrite lowerChar_hex_digit, IH.
Qed.

Lemma color_name_not_hex s : isColorName s = true -> isHexSpelling s = false.
Proof.
  destruct s as [|c s]; simpl; [done|].
  unfold isColorName. simpl. intros [Hc _]%andb_prop.
  apply andb_false_intro1, bool_decide_eq_false. intros ->.
  by vm_compute in Hc.
Qed.

Lemma includes_true l x : includes l x = true <-> x ∈ l.
Proof. unfold includes. apply bool_decide_eq_true. Qed.

Lemma includes_false l x : includes l x = false <-> x ∉ l.
Proof. unfold includes. apply bool_decide_eq_false. Qed.

Lemma get_Some_keys {A} (o : list (string * A)) k v :
  JsObject.get o k = Some v -> k ∈ JsObject.keys o /\ (k, v) ∈ o.
Proof.
  induction o as [|[k' v'] o IH]; simpl; [done|].
  case_bool_decide as E.
  - intros [= ->]. subst. split; apply elem_of_cons; by left.
  - intros [? ?]%IH. split; apply elem_of_cons; by right.
Qed.

Lemma keys_get_Some {A} (o : list (string * A)) k :
  k ∈ JsObject.keys o -> exists v, JsObject.get o k = Some v.
Proof.
  induction o as [|[k' v'] o IH]; simpl.
  - by intros ?%elem_of_nil.
  - intros [->|H]%elem_of_cons.
    + rewrite bool_decide_eq_true_2 by done. eauto.
    + case_bool_decide; eauto.
Qed.

(** The short-circuiting search: [find] returns the first element that
    passes the test, by position. *)
Lemma find_Some_first {A} (test : A -> bool) (l : list A) (x : A) :
  find test l = Some x <->
  exists i, l !! i = Some x /\ test x = true /\
    forall j y, j < i -> l !! j = Some y -> test y = false.
Proof.
  induction l as [|a l IH]; simpl.
  - split; [done|]. by intros (i & ? & _).
  - destruct (test a) eqn:Ha.
    + split.
      * intros [= ->]. exists 0. repeat split; [done|]. intros; lia.
      * intros ([|i] & Hi & Hx & Hfirst).
        -- simpl in Hi. by injection Hi as ->.
        -- specialize (Hfirst 0 a). simpl in Hfirst.
           rewrite Hfirst in Ha; [done | lia | done].
    + rewrite IH. split.
      * intros (i & Hi & Hx & Hfirst). exists (S i). repeat split; [done..|].
        intros [|j] y Hj Hy; simpl in Hy.
        -- by injection Hy as <-.
        -- apply (Hfirst j); [lia | done].
      * intros ([|i] & Hi & Hx & Hfirst); simpl in Hi.
        -- injection Hi as ->. congruence.
        -- exists i. repeat split; [done..|].
           intros j y Hj Hy. apply (Hfirst (S j)); [lia | done].
Qed.

Lemma find_None_all {A} (test : A -> bool) (l : list A) :
  find test l = None <-> forall x, x ∈ l -> test x = false.
Proof.
  induction l as [|a l IH]; simpl.
  - split; [|done]. by intros _ x ?%elem_of_nil.
  - destruct (test a) eqn:Ha.
    + split; [done|]. intros H. rewrite H in Ha; [done|]. by left.
    + rewrite IH. split.
      * intros H x [->|?]%elem_of_cons; auto.
      * intros H x ?. apply H. by right.
Qed.

Lemma find_agree {A} (f g : A -> bool) (l : list A) :
  (forall x, x ∈ l -> f x = g x) -> find f l = find g l.
Proof.
  induction l as [|a l IH]; simpl; [done|]. intros H.
  rewrite (H a) by (by left). rewrite IH; [done|].
  intros x ?. apply H. by right.
Qed.

(** The nodes of a value, by nested induction. *)
Lemma Node_nested_ind (P : Node -> Prop) :
  (forall ty v i t kids, Forall P kids -> P (mkNode ty v i t kids)) ->
  forall n, P n.
Proof.
  intros step. fix IH 1. intros [ty v i t kids]. apply step.
  induction kids as [|k kids IHkids]; constructor; [apply IH | apply IHkids].
Qed.

Lemma elem_of_reports p t : p ∈ reports t <-> Report p ∈ t.
Proof.
  unfold reports. rewrite list_elem_of_omap. split.
  - intros ([d|n|q] & Hin & Heq); simplify_eq. done.
  - intros H. exists (Report p). done.
Qed.

(** What [walk] reports is what its callback reported at some node. *)
Lemma walkNode_reports cb (P : Problem -> Prop) :
  (forall m p, p ∈ (cb m).1 -> P p) ->
  forall n p, Report p ∈ walkNode cb n -> P p.
Proof.
  intros Hcb n. induction n as [ty v i t kids IH] using Node_nested_ind.
  intros p. simpl.
  intros [?|[Hp|Hp]%elem_of_app]%elem_of_cons; [done| |].
  - apply list_elem_of_fmap in Hp as (q & [= ->] & Hq). eauto.
  - destruct (_ && _); [|by apply elem_of_nil in Hp].
    apply list_elem_of_In, in_flat_map in Hp as (k & Hk & Hp).
    rewrite Forall_forall in IH.
    apply (IH k); [by apply list_elem_of_In | by apply list_elem_of_In].
Qed.

Lemma walk_reports cb (P : Problem -> Prop) l :
  (forall m p, p ∈ (cb m).1 -> P p) ->
  forall p, Report p ∈ walk cb l -> P p.
Proof.
  intros Hcb p Hp. unfold walk in Hp.
  apply list_elem_of_In, in_flat_map in Hp as (k & _ & Hp).
  apply (walkNode_reports cb P Hcb k). by apply list_elem_of_In.
Qed.

(** ** The index and the decision *)

Section Properties.

Context `{R : Requires}.

Local Abbreviation always := "always-where-possible" (only parsing).

Lemma namedColorData_lookup name :
  namedColorData !! name =
  (fun h => mkColorData h (generateColorFuncs (head h)))
    <$> JsObject.get namedColorDataHex name.
Proof.
  assert (Hfold : forall ks (m : gmap string ColorData),
    foldl (fun data name =>
             match JsObject.get namedColorDataHex name with
             | Some hex =>
                 <[name := mkColorData hex (generateColorFuncs (head hex))]>
                   data
             | None => data
             end) m ks !! name =
    match JsObject.get namedColorDataHex name with
    | Some h =>
        if bool_decide (name ∈ ks)
        then Some (mkColorData h (generateColorFuncs (head h)))
        else m !! name
    | None => m !! name
    end).
  { induction ks as [|k ks IH]; intros m; cbn [foldl].
    - destruct (JsObject.get _ name); [|done].
      rewrite bool_decide_eq_false_2; [done | apply not_elem_of_nil].
    - rewrite IH. destruct (JsObject.get _ name) as [h|] eqn:Hname.
      + destruct (decide (name ∈ ks)) as [Hin|Hin].
        * rewrite !bool_decide_eq_true_2; [done | by right | done].
        * rewrite (bool_decide_eq_false_2 (name ∈ ks)) by done.
          destruct (decide (k = name)) as [->|Hne].
          -- rewrite Hname, lookup_insert_eq.
             rewrite bool_decide_eq_true_2; [done | by left].
          -- rewrite bool_decide_eq_false_2.
             ++ destruct (JsObject.get _ k); [|done].
                by rewrite lookup_insert_ne.
             ++ intros [?|?]%elem_of_cons; congruence.
      + destruct (JsObject.get _ k) eqn:Hk; [|done].
        rewrite lookup_insert_ne; [done|]. intros ->. congruence. }
  unfold namedColorData. rewrite Hfold, lookup_empty.
  destruct (JsObject.get _ name) as [h|] eqn:Hname; [|done].
  apply get_Some_keys in Hname as [Hin _].
  by rewrite bool_decide_eq_true_2.
Qed.

Lemma hexOf_hexForms c : hexOf c = hexForms c.
Proof.
  unfold hexOf, hexForms. rewrite namedColorData_lookup.
  by destruct (JsObject.get _ c).
Qed.

Lemma funcOf_functionForms c : c ∈ namedColors -> funcOf c = functionForms c.
Proof.
  intros [h Hh]%keys_get_Some.
  unfold funcOf, functionForms, hexForms.
  by rewrite namedColorData_lookup, Hh.
Qed.

(** Under "always-where-possible" the callback reports the first name of
    the catalogue whose forms the token matches, and nothing when there is
    none. *)
Lemma classify_always d n :
  classify always d n =
  match find (fun c => tokenMatches c n) namedColors with
  | Some c => [expectedProblem d n c (original n)]
  | None => []
  end.
Proof.
  unfold classify, tokenMatches, original, isColorFunction, expectedProblem,
    complain.
  rewrite (bool_decide_eq_false_2 (always = "never")) by done.
  rewrite (bool_decide_eq_true_2 (always = always)) by done. simpl.
  destruct (bool_decide (type n = "function") && _) eqn:Hfn.
  - erewrite find_agree; [reflexivity|].
    intros c Hc. simpl. by rewrite funcOf_functionForms.
  - erewrite find_agree; [reflexivity|].
    intros c Hc. simpl. by rewrite hexOf_hexForms.
Qed.

Lemma classify_never d n :
  classify "never" d n =
  if bool_decide (type n = "word")
     && includes namedColors (toLowerCase (value n))
  then [mkProblem (messages_rejected (value n)) d
          (declarationValueIndex d + sourceIndex n)]
  else [].
Proof.
  unfold classify, complain.
  rewrite (bool_decide_eq_true_2 ("never" = "never")) by done.
  rewrite (bool_decide_eq_false_2 ("never" = always)) by done. simpl.
  by destruct (_ && _).
Qed.

Lemma classify_other primary d n :
  primary <> "never" -> primary <> always -> classify primary d n = [].
Proof.
  intros H1 H2. unfold classify.
  rewrite (bool_decide_eq_false_2 (primary = "never")) by done.
  by rewrite (bool_decide_eq_false_2 (primary = always)) by done.
Qed.

(** The callback reports what [classify] reports, or nothing. *)
Lemma visit_reports primary s d n :
  (visit primary s d n).1 = [] \/
  (visit primary s d n).1 = classify primary d n.
Proof.
  unfold visit. repeat (destruct (_ : bool); simpl; auto).
Qed.

Lemma visit_gates_passed primary s d n :
  optionsMatches s "ignore" "inside-function" = false ->
  isStandardSyntaxFunction n = true ->
  isStandardSyntaxValue (value n) = true ->
  type n ∈ NODE_TYPES ->
  visit primary s d n = (classify primary d n, true).
Proof.
  intros H1 H2 H3 H4. unfold visit. rewrite H1, H2, H3. simpl.
  by rewrite bool_decide_eq_true_2.
Qed.

Lemma firstName_find test c :
  firstName test c <-> find test namedColors = Some c.
Proof. unfold firstName. by rewrite find_Some_first. Qed.

Lemma firstName_unique test c c' :
  firstName test c -> firstName test c' -> c = c'.
Proof. rewrite !firstName_find. congruence. Qed.

Lemma firstName_in test c : firstName test c -> c ∈ namedColors.
Proof. intros (i & Hi & _). by eapply list_elem_of_lookup_2. Qed.

Lemma classify_node primary d n p : p ∈ classify primary d n -> node p = d.
Proof.
  unfold classify, complain.
  repeat (destruct (_ : bool); simpl);
    repeat match goal with
           | |- context [find ?f ?l] => destruct (find f l)
           end;
    rewrite ?elem_of_nil, ?list_elem_of_singleton; try done;
    by intros ->.
Qed.

(** Whatever is reported for a declaration was decided by [classify] at
    one of the nodes of its value. *)
Lemma checkDecl_classify primary s d p :
  Report p ∈ checkDecl primary s d -> exists m, p ∈ classify primary d m.
Proof.
  unfold checkDecl. repeat (destruct (_ : bool); [by intros ?%elem_of_nil|]).
  revert p.
  apply (walk_reports _ (fun q => exists m, q ∈ classify primary d m)).
  intros m q Hq.
  destruct (visit_reports primary s d m) as [E|E]; rewrite E in Hq.
  - by apply elem_of_nil in Hq.
  - by exists m.
Qed.

Lemma checkDecl_node primary s d p :
  Report p ∈ checkDecl primary s d -> node p = d.
Proof. intros [m Hm]%checkDecl_classify. by eapply classify_node. Qed.

Lemma wellFormed_name c :
  catalogWellFormed = true -> c ∈ namedColors -> isColorName c = true.
Proof.
  unfold catalogWellFormed. rewrite forallb_forall. intros Hwf Hc.
  apply keys_get_Some in Hc as [v [_ Hv]%get_Some_keys].
  apply list_elem_of_In, Hwf in Hv. by apply andb_prop in Hv as [? _].
Qed.

Lemma wellFormed_spelling c h :
  catalogWellFormed = true -> h ∈ hexForms c -> isHexSpelling h = true.
Proof.
  unfold catalogWellFormed, hexForms. rewrite forallb_forall. intros Hwf Hh.
  destruct (JsObject.get _ c) as [v|] eqn:Hc; simpl in Hh;
    [|by apply elem_of_nil in Hh].
  apply get_Some_keys in Hc as [_ Hv].
  apply list_elem_of_In, Hwf, andb_prop in Hv as [_ Hv]. simpl in Hv.
  rewrite forallb_forall in Hv. by apply Hv, list_elem_of_In.
Qed.

(** Two tokens that are compared by the same text, in the same of the two
    searches, are given the same suggestion. *)
Lemma classify_agree d n m :
  isColorFunction n = isColorFunction m ->
  toLowerCase (original n) = toLowerCase (original m) ->
  classify always d n =
  expectedOutcome d n (find (fun c => tokenMatches c m) namedColors).
Proof.
  intros F O. rewrite classify_always.
  replace (find (fun c => tokenMatches c n) namedColors)
    with (find (fun c => tokenMatches c m) namedColors); [done|].
  apply find_agree. intros c _. unfold tokenMatches. by rewrite F, O.
Qed.

(** ** The claims *)

(** C1, as amended.  Let [h] be a lower-case hex spelling listed for the
    named colour [c] of the catalogue.  Under "always-where-possible", a
    word token whose text is [h] yields exactly one violation, "expected";
    the name it suggests is the first name of the catalogue, in the order
    of its keys, whose spellings contain [h].  That name is [c] itself
    when no name before [c] lists [h]. *)
Theorem hex_spelling_suggests_first_name c h d n :
  c ∈ namedColors -> h ∈ hexForms c -> toLowerCase h = h ->
  type n = "word" -> value n = h ->
  exists c0,
    firstName (fun c' => includes (hexForms c') h) c0 /\
    classify always d n = [expectedProblem d n c0 h] /\
    (forall i, namedColors !! i = Some c ->
       (forall j c', j < i -> namedColors !! j = Some c' -> h ∉ hexForms c') ->
       c0 = c).
Proof.
  intros Hc Hh Hlower Hty Hval.
  assert (Hfn : isColorFunction n = false).
  { unfold isColorFunction. by rewrite Hty. }
  assert (Hfind : find (fun c' => tokenMatches c' n) namedColors =
                  find (fun c' => includes (hexForms c') h) namedColors).
  { apply find_agree. intros c' _. unfold tokenMatches, original.
    by rewrite Hfn, Hval, Hlower. }
  destruct (find (fun c' => includes (hexForms c') h) namedColors)
    as [c0|] eqn:Hc0.
  - exists c0. split; [by apply firstName_find|]. split.
    + rewrite classify_always, Hfind. unfold original. by rewrite Hfn, Hval.
    + intros i Hi Hbefore.
      apply (firstName_unique (fun c' => includes (hexForms c') h));
        [by apply firstName_find|].
      exists i. split; [done|]. split; [by apply includes_true|].
      intros j c' Hj Hc'. apply includes_false. by eapply Hbefore.
  - exfalso. rewrite find_None_all in Hc0. specialize (Hc0 c Hc).
    by apply includes_false in Hc0.
Qed.

(** C2.  Under "never" the decision reports a token if and only if the
    token is a word and its lower-cased text is a name of the catalogue;
    what it reports is the violation "rejected" for that word.  A function
    token is never flagged under "never", whatever the options, the
    catalogue and the token are.  For a node the two syntax classifiers
    accept, the same equivalence holds of the callback as a whole. *)
Theorem never_flags_exactly_named_words d n :
  (classify "never" d n <> [] <->
   type n = "word" /\ toLowerCase (value n) ∈ namedColors) /\
  (forall p, p ∈ classify "never" d n ->
     p = mkProblem (messages_rejected (value n)) d
           (declarationValueIndex d + sourceIndex n)) /\
  (type n = "function" -> forall s, (visit "never" s d n).1 = []) /\
  (forall s,
     isStandardSyntaxFunction n = true ->
     isStandardSyntaxValue (value n) = true ->
     ((visit "never" s d n).1 <> [] <->
      type n = "word" /\ toLowerCase (value n) ∈ namedColors)).
Proof.
  assert (Hiff : classify "never" d n <> [] <->
                 type n = "word" /\ toLowerCase (value n) ∈ namedColors).
  { rewrite classify_never.
    destruct (bool_decide (type n = "word") && _) eqn:E.
    - apply andb_prop in E as [Hty Hin].
      apply bool_decide_eq_true in Hty. apply includes_true in Hin.
      split; [done|]. by intros _.
    - split; [done|]. intros [Hty Hin]. exfalso.
      apply andb_false_iff in E as [E|E].
      + by apply bool_decide_eq_false in E.
      + by apply includes_false in E. }
  split; [done|]. split; [|split].
  - intros p. rewrite classify_never. destruct (_ && _).
    + by intros ->%list_elem_of_singleton.
    + by intros ?%elem_of_nil.
  - intros Hty s.
    destruct (visit_reports "never" s d n) as [E|E]; [done|].
    rewrite E, classify_never, Hty. done.
  - intros s Hfunction Hvalue. split.
    + intros Hreported. apply Hiff.
      destruct (visit_reports "never" s d n) as [E|E]; by rewrite E in *.
    + intros [Hty Hin]. unfold visit.
      rewrite Hty, Hfunction, Hvalue, andb_false_r. simpl.
      rewrite bool_decide_eq_true_2.
      * apply Hiff. by rewrite Hty.
      * unfold NODE_TYPES. apply elem_of_union_l. by apply elem_of_singleton.
Qed.

(** C3.  Under "always-where-possible", take a function token whose
    lower-cased name is a colour-function name, and let [text] be its text
    without white space.  A violation is emitted if and only if the
    lower-cased [text] is a function form of some name of the catalogue.
    It is then the single violation "expected" for the first such name,
    quoting [text]; when no function form matches there is no violation,
    whatever the hex spellings are. *)
Theorem color_function_flagged_iff_function_form d n :
  type n = "function" -> toLowerCase (value n) ∈ colorFunctionNames ->
  let text := removeSpaces (stringify n) in
  let matching c := includes (functionForms c) (toLowerCase text) in
  (classify always d n <> [] <->
   exists c, c ∈ namedColors /\ toLowerCase text ∈ functionForms c) /\
  (forall c, firstName matching c ->
     classify always d n = [expectedProblem d n c text]) /\
  (forall p, p ∈ classify always d n -> exists c, firstName matching c) /\
  ((forall c, c ∈ namedColors -> toLowerCase text ∉ functionForms c) ->
   classify always d n = []).
Proof.
  intros Hty Hname text matching.
  assert (Hfn : isColorFunction n = true).
  { unfold isColorFunction.
    by rewrite !bool_decide_eq_true_2 by done. }
  assert (Hfind : find (fun c' => tokenMatches c' n) namedColors =
                  find matching namedColors).
  { apply find_agree. intros c' _. unfold tokenMatches, original.
    by rewrite Hfn. }
  assert (Horig : original n = text).
  { unfold original. by rewrite Hfn. }
  rewrite classify_always, Hfind, Horig.
  destruct (find matching namedColors) as [c0|] eqn:Hc0.
  - apply firstName_find in Hc0 as Hfirst.
    split; [|split; [|split]].
    + split; [|done]. intros _. exists c0.
      split; [by eapply firstName_in|].
      destruct Hfirst as (i & _ & Hm & _). by apply includes_true.
    + intros c Hc. by rewrite (firstName_unique matching c c0).
    + intros p _. by exists c0.
    + intros Hnone. exfalso.
      destruct Hfirst as (i & Hi & Hm & _).
      apply (Hnone c0); [by eapply list_elem_of_lookup_2|].
      by apply includes_true.
  - split; [|split; [|split]].
    + split; [done|]. intros (c & Hc & Hm). exfalso.
      rewrite find_None_all in Hc0. specialize (Hc0 c Hc).
      by apply includes_false in Hc0.
    + intros c Hc%firstName_find. congruence.
    + by intros p ?%elem_of_nil.
    + done.
Qed.

(** C4, as amended.  In one declaration and at one position, the tokens
    [rgb(255,0,0)], [RGB(255, 0, 0)] and [rgb( 255 , 0 , 0 )] are flagged
    alike under "always-where-possible": all three yield a violation or
    none does, and the violations suggest the same name.  The two
    lower-case spellings yield the same violation; the violation for the
    upper-case spelling quotes the text in its own letter case. *)
Theorem rgb_spellings_same_suggestion d at_ kids1 kids2 kids3 :
  let n1 := mkNode "function" "rgb" at_ "rgb(255,0,0)" kids1 in
  let n2 := mkNode "function" "RGB" at_ "RGB(255, 0, 0)" kids2 in
  let n3 := mkNode "function" "rgb" at_ "rgb( 255 , 0 , 0 )" kids3 in
  classify always d n1 = classify always d n3 /\
  toLowerCase (original n2) = original n1 /\
  exists suggested,
    classify always d n1 = expectedOutcome d n1 suggested /\
    classify always d n2 = expectedOutcome d n2 suggested /\
    classify always d n3 = expectedOutcome d n3 suggested.
Proof.
  intros n1 n2 n3.
  assert (F2 : isColorFunction n2 = isColorFunction n1) by reflexivity.
  assert (F3 : isColorFunction n3 = isColorFunction n1) by reflexivity.
  assert (O1 : toLowerCase (original n1) = original n1).
  { unfold original. by destruct (isColorFunction n1). }
  assert (O2 : toLowerCase (original n2) = original n1).
  { unfold original. rewrite F2. by destruct (isColorFunction n1). }
  assert (O3 : original n3 = original n1).
  { unfold original. rewrite F3. by destruct (isColorFunction n1). }
  pose proof (classify_agree d n1 n1 eq_refl eq_refl) as C1.
  pose proof (classify_agree d n2 n1 F2 (eq_trans O2 (eq_sym O1))) as C2.
  pose proof (classify_agree d n3 n1 F3 (f_equal toLowerCase O3)) as C3.
  split; [|split; [done|]].
  - rewrite C1, C3. unfold expectedOutcome, expectedProblem.
    by rewrite O3.
  - by exists (find (fun c => tokenMatches c n1) namedColors).
Qed.

(** C5.  Under "always-where-possible", a token that matches a form of a
    name of the catalogue - of one name or of several - yields exactly one
    violation, and the name it suggests is the first matching name in the
    order of the catalogue's keys: the search stops there. *)
Theorem first_matching_name_wins d n c :
  c ∈ namedColors -> tokenMatches c n = true ->
  exists c0,
    firstName (fun c' => tokenMatches c' n) c0 /\
    classify always d n = [expectedProblem d n c0 (original n)].
Proof.
  intros Hc Hm. rewrite classify_always.
  destruct (find _ _) as [c0|] eqn:Hc0.
  - exists c0. split; [by apply firstName_find | done].
  - rewrite find_None_all in Hc0. rewrite (Hc0 c Hc) in Hm. done.
Qed.

(** C6.  For a catalogue written as the specification describes it, a
    word token whose text is the name of a named colour yields no violation
    under "always-where-possible". *)
Theorem color_name_word_not_flagged c d n :
  catalogWellFormed = true -> c ∈ namedColors ->
  type n = "word" -> value n = c ->
  classify always d n = [].
Proof.
  intros Hwf Hc Hty Hval. rewrite classify_always.
  assert (Hnone : find (fun c' => tokenMatches c' n) namedColors = None).
  { apply find_None_all. intros c' _.
    unfold tokenMatches, original, isColorFunction. rewrite Hty, Hval.
    simpl. apply includes_false. intros Hin.
    apply (wellFormed_spelling _ _ Hwf) in Hin.
    pose proof (wellFormed_name c Hwf Hc) as Hname.
    rewrite (toLowerCase_color_name c Hname) in Hin.
    rewrite (color_name_not_hex c Hname) in Hin. done. }
  by rewrite Hnone.
Qed.

(** C7.  A declaration whose property is in the set of properties that
    accept custom identifiers, or matches the option [ignoreProperties], is
    left at once: none of its nodes is visited and nothing is reported,
    whatever the mode; and no violation of a run of the rule is attached to
    such a declaration. *)
Theorem skipped_property_reports_nothing primary s d :
  prop d ∈ acceptCustomIdents \/
  optionsMatches s "ignoreProperties" (prop d) = true ->
  checkDecl primary s d = [] /\
  forall root p, p ∈ reports (rule primary s root) -> node p <> d.
Proof.
  intros Hskip.
  assert (Hnil : checkDecl primary s d = []).
  { unfold checkDecl. destruct Hskip as [H|H].
    - by rewrite bool_decide_eq_true_2.
    - rewrite H. by destruct (bool_decide _). }
  split; [done|]. intros root p Hp%elem_of_reports Hnode.
  unfold rule in Hp. destruct (negb _); [by apply elem_of_nil in Hp|].
  unfold walkDecls in Hp.
  apply list_elem_of_In, in_flat_map in Hp as (d' & _ & Hp).
  apply list_elem_of_In, elem_of_cons in Hp as [?|Hp]; [done|].
  pose proof (checkDecl_node _ _ _ _ Hp) as Hd'.
  rewrite Hnode in Hd'. subst d'. rewrite Hnil in Hp.
  by apply elem_of_nil in Hp.
Qed.

(** C8.  When [validateOptions] rejects the configuration, the rule
    returns at once: no declaration is handed to the callback of
    [walkDecls], no node is visited and nothing is reported, whatever the
    root is.  Moreover, whatever [validateOptions] answers, a primary
    option that is neither "never" nor "always-where-possible" leads to no
    violation. *)
Theorem invalid_options_core_never_runs primary s root :
  (validateOptions ruleName
     (mkPrimaryCheck primary ["never"; always])
     (mkSecondaryCheck s
        (mkSecondaryPossible [isString; isRegExp] ["inside-function"]) true)
   = false ->
   rule primary s root = []) /\
  (primary <> "never" -> primary <> always ->
   reports (rule primary s root) = []).
Proof.
  split.
  - intros Hinvalid. unfold rule. by rewrite Hinvalid.
  - intros H1 H2. apply elem_of_nil_inv. intros p Hp%elem_of_reports.
    unfold rule in Hp. destruct (negb _); [by apply elem_of_nil in Hp|].
    unfold walkDecls in Hp.
    apply list_elem_of_In, in_flat_map in Hp as (d & _ & Hp).
    apply list_elem_of_In, elem_of_cons in Hp as [?|Hp]; [done|].
    apply checkDecl_classify in Hp as [m Hm].
    rewrite classify_other in Hm by done. by apply elem_of_nil in Hm.
Qed.

(** C9.  When the option [ignore] contains "inside-function", the callback
    leaves every function node at once and returns [false]: the node's own
    text is not compared with anything, nothing is reported for it, and its
    children are not visited.  The walk of a value then visits the
    top-level nodes only. *)
Theorem inside_function_skips_function_tokens primary s d :
  optionsMatches s "ignore" "inside-function" = true ->
  (forall n, type n = "function" ->
     visit primary s d n = ([], false) /\
     walkNode (visit primary s d) n = [VisitNode n]) /\
  (forall l,
     walk (visit primary s d) l =
     flat_map (fun n => VisitNode n :: map Report (visit primary s d n).1) l).
Proof.
  intros Hignore.
  assert (Hvisit : forall n, type n = "function" ->
                     visit primary s d n = ([], false)).
  { intros n Hty. unfold visit.
    by rewrite Hignore, bool_decide_eq_true_2. }
  assert (Hnode : forall n,
            walkNode (visit primary s d) n =
            VisitNode n :: map Report (visit primary s d n).1).
  { intros [ty v i t kids]. cbn [walkNode].
    destruct (decide (ty = "function")) as [Hty|Hty].
    - rewrite (Hvisit (mkNode ty v i t kids) Hty). done.
    - rewrite (bool_decide_eq_false_2 _ Hty), andb_false_r.
      by rewrite app_nil_r. }
  split.
  - intros n Hty. split; [by apply Hvisit|].
    by rewrite Hnode, Hvisit.
  - intros l. unfold walk. induction l as [|n l IH]; [done|].
    cbn [flat_map]. by rewrite IH, Hnode.
Qed.

(** C10, as amended.  Under "always-where-possible", a violation for a
    function token whose lower-cased name is a colour-function name has
    the message "expected" built from a name of the catalogue, as the
    catalogue writes it (in lower case, for a catalogue as the
    specification describes it), and from the text of the token without
    white space, in the letter case of the source. *)
Theorem color_function_message_quotes_stripped_text d n p :
  type n = "function" -> toLowerCase (value n) ∈ colorFunctionNames ->
  p ∈ classify always d n ->
  exists c,
    c ∈ namedColors /\
    message p = messages_expected c (removeSpaces (stringify n)) /\
    (catalogWellFormed = true -> toLowerCase c = c).
Proof.
  intros Hty Hname Hp.
  assert (Hfn : isColorFunction n = true).
  { unfold isColorFunction. by rewrite !bool_decide_eq_true_2 by done. }
  rewrite classify_always in Hp.
  destruct (find _ _) as [c|] eqn:Hc; [|by apply elem_of_nil in Hp].
  apply list_elem_of_singleton in Hp as ->.
  apply firstName_find, firstName_in in Hc.
  exists c. split; [done|]. split.
  - unfold expectedProblem, original. by rewrite Hfn.
  - intros Hwf. by apply toLowerCase_color_name, wellFormed_name.
Qed.

(** ** Further properties of the callback *)

Lemma classify_shape primary d n :
  classify primary d n = [] \/
  exists text,
    classify primary d n =
    [mkProblem text d (declarationValueIndex d + sourceIndex n)].
Proof.
  unfold classify, complain.
  repeat (destruct (_ : bool); simpl; eauto);
    match goal with
    | |- context [find ?f ?l] => destruct (find f l); eauto
    end.
Qed.

(** X1.  For every mode, options, declaration and node, the callback
    reports at most one problem; a problem it reports is attached to the
    declaration, at the index of the declaration's value plus the node's
    own. *)
Theorem visit_at_most_one_report primary s d n :
  length (visit primary s d n).1 <= 1 /\
  forall q, q ∈ (visit primary s d n).1 ->
    node q = d /\ index q = declarationValueIndex d + sourceIndex n.
Proof.
  destruct (visit_reports primary s d n) as [E|E]; rewrite E.
  - split; [simpl; lia | by intros q ?%elem_of_nil].
  - destruct (classify_shape primary d n) as [C|[text C]]; rewrite C.
    + split; [simpl; lia | by intros q ?%elem_of_nil].
    + split; [simpl; lia|]. by intros q ->%list_elem_of_singleton.
Qed.

(** X2.  The gates of the callback: a node the function classifier
    rejects is left with [false]; a node whose value the value classifier
    rejects, and a node that is neither a word nor a function, are left
    without a report. *)
Theorem gates_skip_nodes primary s d n :
  (isStandardSyntaxFunction n = false -> visit primary s d n = ([], false)) /\
  (isStandardSyntaxValue (value n) = false -> (visit primary s d n).1 = []) /\
  (type n <> "word" -> type n <> "function" ->
   (visit primary s d n).1 = []).
Proof.
  unfold visit. split; [|split].
  - intros ->. by destruct (_ && _).
  - intros ->. destruct (_ && _); [done|].
    by destruct (isStandardSyntaxFunction n).
  - intros Hword Hfunction.
    assert (Hty : type n ∉ NODE_TYPES).
    { unfold NODE_TYPES.
      by intros [?%elem_of_singleton|?%elem_of_singleton]%elem_of_union. }
    rewrite (bool_decide_eq_false_2 _ Hty).
    destruct (_ && _); [done|].
    destruct (isStandardSyntaxFunction n); [|done].
    by destruct (isStandardSyntaxValue (value n)).
Qed.

(** X3.  Two tokens that go through the same search and are compared by
    the same lower-cased text - the text without white space for a colour
    function, the value otherwise - are given the same suggestion under
    "always-where-possible". *)
Theorem same_normal_form_same_suggestion d n m :
  isColorFunction n = isColorFunction m ->
  toLowerCase (original n) = toLowerCase (original m) ->
  exists suggested,
    classify always d n = expectedOutcome d n suggested /\
    classify always d m = expectedOutcome d m suggested.
Proof.
  intros F O. exists (find (fun c => tokenMatches c m) namedColors).
  split; [by apply classify_agree|]. by apply classify_agree.
Qed.

End Properties.

(** ** The claims on the model *)

Section Scenarios.

Local Existing Instance Model.requires.

Local Abbreviation always := "always-where-possible" (only parsing).

Local Ltac decided :=
  match goal with
  | |- ?P => apply (bool_decide_eq_true_1 P); vm_compute; reflexivity
  end.

(** The scenarios of the specification. *)
Example scenario_never_red :
  reports (rule "never" None [Model.color "red"]) =
  [mkProblem ("Unexpected named color " +:+ Model.quoted "red")
     (Model.color "red") 0].
Proof. vm_compute. reflexivity. Qed.

Example scenario_always_hex :
  reports (rule always None [Model.color "#f00"]) =
  [mkProblem
     ("Expected " +:+ Model.quoted "#f00" +:+ " to be " +:+ Model.quoted "red")
     (Model.color "#f00") 0].
Proof. vm_compute. reflexivity. Qed.

Example scenario_always_rgb :
  reports (rule always None [Model.color "rgb(255,0,0)"]) =
  [mkProblem
     ("Expected " +:+ Model.quoted "rgb(255,0,0)" +:+ " to be "
        +:+ Model.quoted "red")
     (Model.color "rgb(255,0,0)") 0].
Proof. vm_compute. reflexivity. Qed.

Example scenario_always_no_match :
  reports (rule always None [Model.color "rgb(12,34,56)"]) = [].
Proof. vm_compute. reflexivity. Qed.

Example scenario_custom_ident :
  rule "never" None [mkDecl "animation-name" "red"] =
  [VisitDecl (mkDecl "animation-name" "red")].
Proof. vm_compute. reflexivity. Qed.

Example scenario_inside_function :
  rule "never" Model.insideFunction [Model.color "calc(red)"] =
  [VisitDecl (Model.color "calc(red)");
   VisitNode (Model.call "calc" "calc(red)" 0 [Model.word "red" 5])] /\
  reports (rule "never" None [Model.color "calc(red)"]) =
  [mkProblem ("Unexpected named color " +:+ Model.quoted "red")
     (Model.color "calc(red)") 5].
Proof. split; vm_compute; reflexivity. Qed.

Example scenario_inside_function_rgb :
  reports (rule always Model.insideFunction [Model.color "rgb(255,0,0)"])
  = [].
Proof. vm_compute. reflexivity. Qed.

Example scenario_ignored_property :
  rule "never"
    (Some (Model.mkOptions (Some [Model.PString "color"]) None))
    [Model.color "red"] =
  [VisitDecl (Model.color "red")].
Proof. vm_compute. reflexivity. Qed.

(** C1, the claim as stated fails: [#808080] is a spelling of the named
    colour grey, and the word [#808080] is reported with the suggestion
    gray, the first of the two names that list it. *)
Lemma grey_spelling_suggests_gray :
  let d := Model.color "#808080" in
  let n := Model.word "#808080" 0 in
  "grey" ∈ namedColors /\ "#808080" ∈ hexForms "grey" /\
  map message (classify always d n) =
    ["Expected " +:+ Model.quoted "#808080" +:+ " to be "
       +:+ Model.quoted "gray"] /\
  classify always d n <> [expectedProblem d n "grey" "#808080"].
Proof.
  intros d n. split; [decided|]. split; [decided|]. split.
  - vm_compute. reflexivity.
  - vm_compute. discriminate.
Qed.

(** C1, as amended, on the spelling [#f00] of red. *)
Lemma hex_spelling_suggests_first_name_witness :
  let d := Model.color "#f00" in
  let n := Model.word "#f00" 0 in
  ("red" ∈ namedColors /\ "#f00" ∈ hexForms "red") /\
  exists c0,
    firstName (fun c' => includes (hexForms c') "#f00") c0 /\
    classify always d n = [expectedProblem d n c0 "#f00"] /\
    (forall i, namedColors !! i = Some "red" ->
       (forall j c', j < i -> namedColors !! j = Some c' ->
          "#f00" ∉ hexForms c') ->
       c0 = "red").
Proof.
  intros d n. split; [split; decided|].
  apply (hex_spelling_suggests_first_name "red" "#f00" d n);
    [decided | decided | reflexivity | reflexivity | reflexivity].
Defined.

(** C2, on the word [red] and on the function [rgb(255,0,0)]. *)
Lemma never_flags_exactly_named_words_witness :
  classify "never" (Model.color "red") (Model.word "red" 0) <> [] /\
  (visit "never" None (Model.color "rgb(255,0,0)")
     (Model.call "rgb" "rgb(255,0,0)" 0 [])).1 = [].
Proof.
  split.
  - apply (never_flags_exactly_named_words
             (Model.color "red") (Model.word "red" 0)).
    split; [reflexivity | decided].
  - apply (never_flags_exactly_named_words
             (Model.color "rgb(255,0,0)")
             (Model.call "rgb" "rgb(255,0,0)" 0 [])).
    reflexivity.
Defined.

(** C3, on the function [rgb( 255 , 0 , 0 )]. *)
Lemma color_function_flagged_iff_function_form_witness :
  let d := Model.color "rgb( 255 , 0 , 0 )" in
  let n := Model.call "rgb" "rgb( 255 , 0 , 0 )" 0 [] in
  (type n = "function" /\ toLowerCase (value n) ∈ colorFunctionNames) /\
  classify always d n = [expectedProblem d n "red" "rgb(255,0,0)"].
Proof.
  intros d n.
  assert (Hty : type n = "function") by reflexivity.
  assert (Hname : toLowerCase (value n) ∈ colorFunctionNames) by decided.
  split; [done|].
  destruct (color_function_flagged_iff_function_form d n Hty Hname)
    as (_ & Hfirst & _).
  apply Hfirst. exists 3. split; [reflexivity|]. split.
  - vm_compute. reflexivity.
  - intros j c' Hj Hc'.
    destruct j as [|[|[|j]]]; [| | |lia];
      injection Hc' as <-; vm_compute; reflexivity.
Defined.

(** C4, the claim as stated fails: the violation for [RGB(255, 0, 0)]
    is not the violation for [rgb(255,0,0)]; the messages differ. *)
Lemma rgb_spellings_differ_in_message :
  let d := Model.color "rgb(255,0,0)" in
  let n1 := Model.call "rgb" "rgb(255,0,0)" 0 [] in
  let n2 := Model.call "RGB" "RGB(255, 0, 0)" 0 [] in
  map message (classify always d n1) =
    ["Expected " +:+ Model.quoted "rgb(255,0,0)" +:+ " to be "
       +:+ Model.quoted "red"] /\
  map message (classify always d n2) =
    ["Expected " +:+ Model.quoted "RGB(255,0,0)" +:+ " to be "
       +:+ Model.quoted "red"] /\
  classify always d n1 <> classify always d n2.
Proof.
  intros d n1 n2. split; [vm_compute; reflexivity|].
  split; [vm_compute; reflexivity|]. vm_compute. discriminate.
Qed.

(** C5, on the word [#808080], which matches gray and grey. *)
Lemma first_matching_name_wins_witness :
  let d := Model.color "#808080" in
  let n := Model.word "#808080" 0 in
  (tokenMatches "gray" n = true /\
   "grey" ∈ namedColors /\ tokenMatches "grey" n = true) /\
  exists c0,
    firstName (fun c' => tokenMatches c' n) c0 /\
    classify always d n = [expectedProblem d n c0 (original n)].
Proof.
  intros d n.
  split; [split; [vm_compute; reflexivity | split; [decided|]]|].
  - vm_compute. reflexivity.
  - apply (first_matching_name_wins d n "grey");
      [decided | vm_compute; reflexivity].
Defined.

(** C6, on the word [red]. *)
Lemma color_name_word_not_flagged_witness :
  (catalogWellFormed = true /\ "red" ∈ namedColors) /\
  classify always (Model.color "red") (Model.word "red" 0) = [].
Proof.
  split; [split; [vm_compute; reflexivity | decided]|].
  apply (color_name_word_not_flagged "red");
    [vm_compute; reflexivity | decided | reflexivity | reflexivity].
Defined.

(** C7, on the declaration [font-family: red]. *)
Lemma skipped_property_reports_nothing_witness :
  let d := mkDecl "font-family" "red" in
  prop d ∈ acceptCustomIdents /\
  checkDecl "never" None d = [] /\
  forall root p, p ∈ reports (rule "never" None root) -> node p <> d.
Proof.
  intros d.
  assert (Hprop : prop d ∈ acceptCustomIdents) by decided.
  split; [done|].
  apply (@skipped_property_reports_nothing Model.requires "never" None d). by left.
Defined.

(** C8, on a primary option that is not a mode of the rule. *)
Lemma invalid_options_core_never_runs_witness :
  let check :=
    validateOptions ruleName
      (mkPrimaryCheck "sometimes" ["never"; always])
      (mkSecondaryCheck None
         (mkSecondaryPossible [isString; isRegExp] ["inside-function"])
         true) in
  check = false /\
  rule "sometimes" None [Model.color "red"] = [] /\
  reports (rule "sometimes" None [Model.color "red"]) = [].
Proof.
  intros check.
  assert (Hcheck : check = false) by (vm_compute; reflexivity).
  destruct (@invalid_options_core_never_runs Model.requires "sometimes" None
              [Model.color "red"]) as [Hgate Hmode].
  split; [done|]. split; [by apply Hgate | by apply Hmode].
Defined.

(** C9, on [rgb(255,0,0)], a top-level colour function. *)
Lemma inside_function_skips_function_tokens_witness :
  let d := Model.color "rgb(255,0,0)" in
  let n := Model.call "rgb" "rgb(255,0,0)" 0
             [Model.word "255" 4; Model.word "0" 8; Model.word "0" 10] in
  optionsMatches Model.insideFunction "ignore" "inside-function" = true /\
  visit always Model.insideFunction d n = ([], false) /\
  walkNode (visit always Model.insideFunction d) n = [VisitNode n].
Proof.
  intros d n.
  assert (Hignore :
    optionsMatches Model.insideFunction "ignore" "inside-function" = true)
    by (vm_compute; reflexivity).
  split; [done|].
  destruct (@inside_function_skips_function_tokens Model.requires always
              Model.insideFunction d Hignore) as [Hfunction _].
  by apply Hfunction.
Defined.

(** C10, the claim as stated fails: the function token [#f00( 1 )] is
    reported by the search over the hex spellings, and the message quotes
    the name of the function, [#f00], not the text of the token without
    white space, [#f00(1)]. *)
Lemma hex_named_function_quotes_its_name :
  let d := Model.color "#f00( 1 )" in
  let n := Model.call "#f00" "#f00( 1 )" 0 [Model.word "1" 6] in
  type n = "function" /\
  removeSpaces (stringify n) = "#f00(1)" /\
  map message (classify always d n) =
    ["Expected " +:+ Model.quoted "#f00" +:+ " to be "
       +:+ Model.quoted "red"] /\
  forall c p, p ∈ classify always d n ->
    message p <> messages_expected c (removeSpaces (stringify n)).
Proof.
  intros d n. split; [reflexivity|]. split; [reflexivity|].
  split; [vm_compute; reflexivity|].
  intros c p Hp.
  assert (Hn : classify always d n = [expectedProblem d n "red" "#f00"])
    by (vm_compute; reflexivity).
  rewrite Hn in Hp. apply list_elem_of_singleton in Hp as ->.
  vm_compute. discriminate.
Qed.

(** C10, as amended, on [RGB(255, 0, 0)]: the message quotes
    [RGB(255,0,0)], neither the text of the source nor its lower-case
    form. *)
Lemma color_function_message_quotes_stripped_text_witness :
  let d := Model.color "RGB(255, 0, 0)" in
  let n := Model.call "RGB" "RGB(255, 0, 0)" 0 [] in
  let p := mkProblem
             ("Expected " +:+ Model.quoted "RGB(255,0,0)" +:+ " to be "
                +:+ Model.quoted "red") d 0 in
  (type n = "function" /\ toLowerCase (value n) ∈ colorFunctionNames /\
   p ∈ classify always d n) /\
  exists c,
    c ∈ namedColors /\
    message p = messages_expected c (removeSpaces (stringify n)) /\
    (catalogWellFormed = true -> toLowerCase c = c).
Proof.
  intros d n p.
  assert (Hp : p ∈ classify always d n).
  { replace (classify always d n) with [p] by (vm_compute; reflexivity).
    by apply list_elem_of_singleton. }
  split; [split; [reflexivity | split; [decided | done]]|].
  apply (color_function_message_quotes_stripped_text d n p);
    [reflexivity | decided | done].
Defined.

(** X3, on [rgba( 255,0,0 )] and [RGBA(255,0,0)]. *)
Lemma same_normal_form_same_suggestion_witness :
  let d := Model.color "rgba( 255,0,0 )" in
  let n := Model.call "rgba" "rgba( 255,0,0 )" 0 [] in
  let m := Model.call "RGBA" "RGBA(255,0,0)" 0 [] in
  (isColorFunction n = isColorFunction m /\
   toLowerCase (original n) = toLowerCase (original m)) /\
  exists suggested,
    classify always d n = expectedOutcome d n suggested /\
    classify always d m = expectedOutcome d m suggested.
Proof.
  intros d n m.
  split; [split; vm_compute; reflexivity|].
  apply (same_normal_form_same_suggestion d n m); vm_compute; reflexivity.
Defined.

(** An option [ignore] that holds another value is rejected, and the
    rule does nothing. *)
Example scenario_invalid_secondary :
  rule "never" (Some (Model.mkOptions None (Some ["inside-functions"])))
    [Model.color "red"] = [].
Proof. vm_compute. reflexivity. Qed.

End Scenarios.

(** ** The index, the walk and the rule as a whole *)

Section Coverage.

Context `{R : Requires}.

Local Abbreviation always := "always-where-possible" (only parsing).

Lemma subtree_head n : n ∈ subtree n.
Proof. destruct n. simpl. by left. Qed.

Lemma elem_of_flat_map {A B} (f : A -> list B) (l : list A) (y : B) :
  y ∈ flat_map f l <-> exists x, x ∈ l /\ y ∈ f x.
Proof.
  rewrite list_elem_of_In, in_flat_map. split.
  - intros (x & Hx & Hy). exists x. by rewrite !list_elem_of_In.
  - intros (x & Hx & Hy). exists x. by rewrite <- !list_elem_of_In.
Qed.

Lemma flat_map_agree {A B} (f g : A -> list B) (l : list A) :
  (forall x, x ∈ l -> f x = g x) -> flat_map f l = flat_map g l.
Proof.
  induction l as [|a l IH]; [done|]. intros H. cbn [flat_map].
  rewrite (H a) by (by left). rewrite IH; [done|].
  intros x Hx. apply H. by right.
Qed.

(** A report of a walk was made by the callback at a node the walk can
    reach. *)
Lemma walkNode_reports_at cb n p :
  Report p ∈ walkNode cb n -> exists m, m ∈ subtree n /\ p ∈ (cb m).1.
Proof.
  revert p. induction n as [ty v i t kids IH] using Node_nested_ind.
  intros p. cbn [walkNode subtree].
  intros [?|[Hp|Hp]%elem_of_app]%elem_of_cons; [done| |].
  - apply list_elem_of_fmap in Hp as (q & [= ->] & Hq).
    exists (mkNode ty v i t kids). split; [by left | done].
  - destruct (cb _).2; [|by apply elem_of_nil in Hp]. simpl in Hp.
    destruct (bool_decide (ty = "function"));
      [|by apply elem_of_nil in Hp].
    apply elem_of_flat_map in Hp as (k & Hk & Hp).
    rewrite Forall_forall in IH.
    destruct (IH k Hk p Hp) as (m & Hm & Hq).
    exists m. split; [|done]. right.
    apply elem_of_flat_map. by exists k.
Qed.

Lemma walk_reports_at cb l p :
  Report p ∈ walk cb l -> exists m, m ∈ allNodes l /\ p ∈ (cb m).1.
Proof.
  unfold walk, allNodes. intros (k & Hk & Hp)%elem_of_flat_map.
  apply walkNode_reports_at in Hp as (m & Hm & Hq).
  exists m. split; [|done]. apply elem_of_flat_map. by exists k.
Qed.

(** What the callback reports, it reports for a node that passed every
    gate. *)
Lemma visit_reported primary s d n p :
  p ∈ (visit primary s d n).1 ->
  optionsMatches s "ignore" "inside-function"
    && bool_decide (type n = "function") = false /\
  isStandardSyntaxFunction n = true /\
  isStandardSyntaxValue (value n) = true /\
  type n ∈ NODE_TYPES /\
  p ∈ classify primary d n.
Proof.
  unfold visit.
  destruct (_ && _); [by intros ?%elem_of_nil|].
  destruct (isStandardSyntaxFunction n); [|by intros ?%elem_of_nil].
  destruct (isStandardSyntaxValue (value n)); [|by intros ?%elem_of_nil].
  simpl. case_bool_decide; [|by intros ?%elem_of_nil].
  simpl. done.
Qed.

Lemma visit_passed primary s d n :
  optionsMatches s "ignore" "inside-function"
    && bool_decide (type n = "function") = false ->
  isStandardSyntaxFunction n = true ->
  isStandardSyntaxValue (value n) = true ->
  type n ∈ NODE_TYPES ->
  visit primary s d n = (classify primary d n, true).
Proof.
  intros H1 H2 H3 H4. unfold visit. rewrite H1, H2, H3. simpl.
  by rewrite bool_decide_eq_true_2.
Qed.

Lemma visit_at_most_one_report' primary s d n :
  length (visit primary s d n).1 <= 1.
Proof.
  destruct (visit_reports primary s d n) as [E|E]; rewrite E; [simpl; lia|].
  destruct (classify_shape primary d n) as [C|[text C]]; rewrite C;
    simpl; lia.
Qed.

(** X4.  The index built before the walk is defined exactly at the keys
    of the catalogue; at a key it holds the spellings the catalogue lists
    for that key, and as function forms what the generator makes of the
    first of them alone. *)
Theorem index_holds_catalog_entries name :
  (namedColorData !! name = None <-> name ∉ namedColors) /\
  (forall data, namedColorData !! name = Some data ->
     JsObject.get namedColorDataHex name = Some (hex data) /\
     func data = generateColorFuncs (head (hex data))).
Proof.
  rewrite namedColorData_lookup. split.
  - destruct (JsObject.get namedColorDataHex name) as [h|] eqn:Hget; simpl.
    + split; [done|]. intros Hnot. exfalso.
      apply Hnot. by apply get_Some_keys in Hget as [? _].
    + split; [|done]. intros _ [h Hh]%keys_get_Some.
      unfold namedColors in *. congruence.
  - intros data. destruct (JsObject.get namedColorDataHex name); simpl; [|done].
    by intros [= <-].
Qed.


(** X6.  Every violation of a run of the rule was decided by lines 98-142
    for a word or a function node of the value of a declaration of the
    root; the options were accepted, the declaration's property is neither
    in the set of properties that accept custom identifiers nor ignored,
    and the node passed both syntax classifiers and, if it is a function,
    the option "inside-function" is not set. *)
Theorem reports_are_sound primary s root p :
  p ∈ reports (rule primary s root) ->
  validateOptions ruleName
    (mkPrimaryCheck primary ["never"; always])
    (mkSecondaryCheck s
       (mkSecondaryPossible [isString; isRegExp] ["inside-function"]) true)
  = true /\
  exists d n,
    d ∈ root /\
    (prop d ∉ acceptCustomIdents) /\
    optionsMatches s "ignoreProperties" (prop d) = false /\
    n ∈ allNodes (valueParser (declValue d)) /\
    (type n = "word" \/
     (type n = "function" /\
      optionsMatches s "ignore" "inside-function" = false)) /\
    isStandardSyntaxFunction n = true /\
    isStandardSyntaxValue (value n) = true /\
    p ∈ classify primary d n.
Proof.
  intros Hp%elem_of_reports. unfold rule in Hp.
  destruct (validateOptions _ _ _); [|by apply elem_of_nil in Hp].
  split; [done|]. simpl in Hp. unfold walkDecls in Hp.
  apply elem_of_flat_map in Hp as (d & Hd & Hp).
  apply elem_of_cons in Hp as [?|Hp]; [done|].
  exists d. unfold checkDecl in Hp.
  case_bool_decide as Hcustom; [by apply elem_of_nil in Hp|].
  destruct (optionsMatches s "ignoreProperties" (prop d)) eqn:Hignored;
    [by apply elem_of_nil in Hp|].
  apply walk_reports_at in Hp as (n & Hn & Hq).
  apply visit_reported in Hq as (Hinside & Hfunction & Hvalue & Hty & Hq).
  exists n. repeat (split; [done|]). split; [|done].
  unfold NODE_TYPES in Hty.
  apply elem_of_union in Hty as [Hty%elem_of_singleton|Hty%elem_of_singleton].
  - by left.
  - right. split; [done|].
    rewrite Hty, bool_decide_eq_true_2, andb_true_r in Hinside; done.
Qed.

(** X7.  Conversely, what lines 98-142 decide for a top-level node of a
    declaration of the root is reported by the rule, provided the options
    are accepted, the declaration is not skipped and the node passes the
    gates. *)
Theorem top_level_token_reported primary s root d n p :
  validateOptions ruleName
    (mkPrimaryCheck primary ["never"; always])
    (mkSecondaryCheck s
       (mkSecondaryPossible [isString; isRegExp] ["inside-function"]) true)
  = true ->
  d ∈ root ->
  prop d ∉ acceptCustomIdents ->
  optionsMatches s "ignoreProperties" (prop d) = false ->
  n ∈ valueParser (declValue d) ->
  optionsMatches s "ignore" "inside-function"
    && bool_decide (type n = "function") = false ->
  isStandardSyntaxFunction n = true ->
  isStandardSyntaxValue (value n) = true ->
  type n ∈ NODE_TYPES ->
  p ∈ classify primary d n ->
  p ∈ reports (rule primary s root).
Proof.
  intros Hvalid Hd Hcustom Hignored Hn Hinside Hfunction Hvalue Hty Hp.
  apply elem_of_reports. unfold rule. rewrite Hvalid. simpl.
  unfold walkDecls. apply elem_of_flat_map. exists d. split; [done|].
  right. unfold checkDecl.
  rewrite (bool_decide_eq_false_2 _ Hcustom), Hignored.
  unfold walk. apply elem_of_flat_map. exists n. split; [done|].
  destruct n as [ty v i t kids]. cbn [walkNode]. right.
  apply elem_of_app. left. apply list_elem_of_fmap. exists p.
  split; [done|].
  by rewrite (visit_passed primary s d _ Hinside Hfunction Hvalue Hty).
Qed.

(** X8.  When the option "inside-function" is not set and the function
    classifier accepts every node of a value, the walk leaves nothing out:
    the callback is called once on every node of the value, a function's
    arguments included, in the order of the text. *)
Theorem full_traversal_without_pruning primary s d l :
  optionsMatches s "ignore" "inside-function" = false ->
  (forall m, m ∈ allNodes l -> isStandardSyntaxFunction m = true) ->
  walk (visit primary s d) l =
  flat_map (fun m => VisitNode m :: map Report (visit primary s d m).1)
    (allNodes l).
Proof.
  intros Hoff.
  set (f := fun m => VisitNode m :: map Report (visit primary s d m).1).
  assert (Hdescend : forall m, isStandardSyntaxFunction m = true ->
                       (visit primary s d m).2 = true).
  { intros m Hm. unfold visit. rewrite Hoff, Hm. simpl.
    by repeat (destruct (negb _)). }
  assert (Hflat : forall (g : Node -> list Node) (ks : list Node),
            flat_map f (flat_map g ks) =
            flat_map (fun k => flat_map f (g k)) ks).
  { intros g ks. induction ks as [|k ks IHks]; [done|].
    cbn [flat_map]. by rewrite flat_map_app, IHks. }
  assert (Hnode : forall n,
            (forall m, m ∈ subtree n -> isStandardSyntaxFunction m = true) ->
            walkNode (visit primary s d) n = flat_map f (subtree n)).
  { intros n. induction n as [ty v i t kids IH] using Node_nested_ind.
    intros Hall. cbn [walkNode subtree flat_map].
    rewrite (Hdescend (mkNode ty v i t kids))
      by (apply Hall, subtree_head).
    unfold f at 1. cbn [andb app]. f_equal. f_equal.
    destruct (bool_decide (ty = "function")) eqn:Hty; [|done].
    rewrite Hflat. apply flat_map_agree. intros k Hk.
    rewrite Forall_forall in IH. apply (IH k Hk).
    intros m Hm. apply Hall. cbn [subtree]. rewrite Hty. right.
    apply elem_of_flat_map. by exists k. }
  intros Hall. unfold walk, allNodes. rewrite Hflat.
  apply flat_map_agree. intros n Hn. apply Hnode.
  intros m Hm. apply Hall. unfold allNodes.
  apply elem_of_flat_map. by exists n.
Qed.

(** X9.  A node the function classifier rejects is visited and left: the
    walk reports nothing for it and does not enter it, so nothing inside
    it is ever reported, under any mode and any options. *)
Theorem nonstandard_function_subtree_skipped primary s d n :
  isStandardSyntaxFunction n = false ->
  walkNode (visit primary s d) n = [VisitNode n].
Proof.
  intros Hn.
  assert (Hvisit : visit primary s d n = ([], false)).
  { unfold visit. rewrite Hn. by destruct (_ && _). }
  destruct n as [ty v i t kids]. cbn [walkNode]. by rewrite Hvisit.
Qed.

(** X10.  For a catalogue written as the specification describes it, no
    token is flagged under both modes: what "never" rejects,
    "always-where-possible" accepts, and what "always-where-possible"
    wants replaced, "never" accepts. *)
Theorem modes_flag_disjoint_tokens d n :
  catalogWellFormed = true ->
  classify "never" d n = [] \/ classify always d n = [].
Proof.
  intros Hwf. rewrite classify_never, classify_always.
  destruct (bool_decide (type n = "word") && _) eqn:Hnever; [|by left].
  right. apply andb_prop in Hnever as [Hty Hname].
  apply bool_decide_eq_true in Hty. apply includes_true in Hname.
  assert (Hnone : find (fun c => tokenMatches c n) namedColors = None).
  { apply find_None_all. intros c _.
    unfold tokenMatches, original, isColorFunction. rewrite Hty. simpl.
    apply includes_false. intros Hin.
    apply (wellFormed_spelling _ _ Hwf) in Hin.
    apply (wellFormed_name _ Hwf), color_name_not_hex in Hname.
    congruence. }
  by rewrite Hnone.
Qed.

Lemma visit_off_functions primary s s' d n :
  type n <> "function" ->
  visit primary s d n = visit primary s' d n.
Proof.
  intros Hty. unfold visit.
  by rewrite (bool_decide_eq_false_2 _ Hty), !andb_false_r.
Qed.

(** Two callbacks that agree on the nodes a walk can reach make the same
    walk. *)
Lemma walk_agree cb cb' l :
  (forall m, m ∈ allNodes l -> cb m = cb' m) -> walk cb l = walk cb' l.
Proof.
  assert (Hnode : forall n,
            (forall m, m ∈ subtree n -> cb m = cb' m) ->
            walkNode cb n = walkNode cb' n).
  { intros n. induction n as [ty v i t kids IH] using Node_nested_ind.
    intros Hall. cbn [walkNode].
    rewrite <- (Hall (mkNode ty v i t kids)) by apply subtree_head.
    do 2 f_equal.
    destruct (bool_decide (ty = "function")) eqn:Hty;
      [|by rewrite andb_false_r].
    destruct (cb _).2; [|done]. cbn [andb].
    apply flat_map_agree. intros k Hk.
    rewrite Forall_forall in IH. apply (IH k Hk).
    intros m Hm. apply Hall. cbn [subtree]. rewrite Hty. right.
    apply elem_of_flat_map. by exists k. }
  intros Hall. unfold walk. apply flat_map_agree. intros n Hn.
  apply Hnode. intros m Hm. apply Hall. unfold allNodes.
  apply elem_of_flat_map. by exists n.
Qed.

(** X11.  The secondary options reach the rule through [ignoreProperties]
    and through "inside-function" only, and the latter concerns function
    nodes only: for a declaration whose value holds no function node, two
    secondary options that agree on whether the property is ignored lead
    to the same visits and the same reports. *)
Theorem options_inert_without_functions primary s s' d :
  (forall m, m ∈ allNodes (valueParser (declValue d)) ->
     type m <> "function") ->
  optionsMatches s "ignoreProperties" (prop d) =
  optionsMatches s' "ignoreProperties" (prop d) ->
  checkDecl primary s d = checkDecl primary s' d.
Proof.
  intros Hnone Hsame. unfold checkDecl. rewrite Hsame.
  destruct (bool_decide _); [done|]. destruct (optionsMatches s' _ _); [done|].
  apply walk_agree. intros m Hm. by apply visit_off_functions, Hnone.
Qed.

(** X12.  The kind of a violation follows the mode.  Under "never" it is
    "rejected", for a word, and quotes the word as it is written; under
    "always-where-possible" it is "expected", suggests a key of the
    catalogue of which the token matches a form, and quotes the original
    text of the token.  No other mode yields a violation. *)
Theorem classify_message_by_mode primary d n p :
  p ∈ classify primary d n ->
  (primary = "never" /\ type n = "word" /\
   message p = messages_rejected (value n)) \/
  (primary = always /\
   exists c, c ∈ namedColors /\ tokenMatches c n = true /\
     message p = messages_expected c (original n)).
Proof.
  intros Hp.
  destruct (decide (primary = "never")) as [->|Hnever].
  - left. rewrite classify_never in Hp.
    destruct (bool_decide (type n = "word") && _) eqn:E;
      [|by apply elem_of_nil in Hp].
    apply andb_prop in E as [Hty%bool_decide_eq_true _].
    by apply list_elem_of_singleton in Hp as ->.
  - destruct (decide (primary = always)) as [->|Halways].
    + right. split; [done|]. rewrite classify_always in Hp.
      destruct (find _ _) as [c|] eqn:Hc; [|by apply elem_of_nil in Hp].
      apply list_elem_of_singleton in Hp as ->.
      apply firstName_find in Hc as Hfirst.
      exists c. split; [by eapply firstName_in|].
      destruct Hfirst as (i & _ & Hm & _). done.
    + rewrite classify_other in Hp by done. by apply elem_of_nil in Hp.
Qed.

Lemma reports_app t1 t2 : reports (t1 ++ t2) = reports t1 ++ reports t2.
Proof. unfold reports. apply omap_app. Qed.

Lemma reports_Report ps : reports (map Report ps) = ps.
Proof.
  unfold reports. induction ps as [|p ps IH]; [done|].
  cbn. f_equal. exact IH.
Qed.

(** X13.  A walk of a value reports at most as many violations as the
    value has nodes: each node is judged once, and yields one violation at
    most. *)
Theorem at_most_one_report_per_node primary s d l :
  length (reports (walk (visit primary s d) l)) <= length (allNodes l).
Proof.
  set (cb := visit primary s d).
  assert (Hcb : forall m, length (cb m).1 <= 1).
  { intros m. apply visit_at_most_one_report'. }
  assert (Hnode : forall n,
            length (reports (walkNode cb n)) <= length (subtree n)).
  { intros n. induction n as [ty v i t kids IH] using Node_nested_ind.
    cbn [walkNode subtree].
    change (reports (VisitNode (mkNode ty v i t kids) :: ?t))
      with (reports t).
    rewrite reports_app, reports_Report, length_app. cbn [length].
    specialize (Hcb (mkNode ty v i t kids)).
    destruct ((cb (mkNode ty v i t kids)).2 && bool_decide (ty = "function"))
      eqn:Hdescend; [|cbn; lia].
    apply andb_prop in Hdescend as [_ ->].
    assert (length (reports (flat_map (walkNode cb) kids))
            <= length (flat_map subtree kids)); [|lia].
    clear Hcb. induction kids as [|k kids IHkids]; [done|].
    apply Forall_cons in IH as [Hk Hkids]. cbn [flat_map].
    rewrite reports_app, !length_app. specialize (IHkids Hkids). lia. }
  unfold walk, allNodes. induction l as [|n l IHl]; [done|].
  cbn [flat_map]. rewrite reports_app, !length_app.
  specialize (Hnode n). lia.
Qed.

End Coverage.

(** ** The same properties on the model *)

Section CoverageScenarios.

Local Existing Instance Model.requires.

Local Abbreviation always := "always-where-possible" (only parsing).

Local Abbreviation noOptions :=
  (None : @SecondaryOptions Model.requires) (only parsing).

Local Ltac decided :=
  match goal with
  | |- ?P => apply (bool_decide_eq_true_1 P); vm_compute; reflexivity
  end.

(** X6, on the word [red] inside [calc(red)] under "never". *)
Lemma reports_are_sound_witness :
  let d := Model.color "calc(red)" in
  let p := mkProblem ("Unexpected named color " +:+ Model.quoted "red") d 5 in
  p ∈ reports (rule "never" noOptions [d]) /\
  exists d' n,
    d' ∈ [d] /\
    (prop d' ∉ acceptCustomIdents) /\
    optionsMatches noOptions "ignoreProperties" (prop d') = false /\
    n ∈ allNodes (valueParser (declValue d')) /\
    (type n = "word" \/
     (type n = "function" /\
      optionsMatches noOptions "ignore" "inside-function" = false)) /\
    isStandardSyntaxFunction n = true /\
    isStandardSyntaxValue (value n) = true /\
    p ∈ classify "never" d' n.
Proof.
  intros d p.
  assert (Hp : p ∈ reports (rule "never" noOptions [d])).
  { replace (reports (rule "never" noOptions [d])) with [p]
      by (vm_compute; reflexivity).
    by apply list_elem_of_singleton. }
  split; [done|].
  by apply (@reports_are_sound Model.requires "never" noOptions [d] p).
Defined.

(** X7, on the word [#f00] after a space. *)
Lemma top_level_token_reported_witness :
  let d := Model.color "1px #f00" in
  let n := Model.word "#f00" 4 in
  let p := mkProblem
             ("Expected " +:+ Model.quoted "#f00" +:+ " to be "
                +:+ Model.quoted "red") d 4 in
  (n ∈ valueParser (declValue d) /\ p ∈ classify always d n) /\
  p ∈ reports (rule always noOptions [d]).
Proof.
  intros d n p.
  assert (Hn : n ∈ valueParser (declValue d)).
  { replace (valueParser (declValue d))
      with [Model.word "1px" 0; mkNode "space" " " 3 " " []; n]
      by (vm_compute; reflexivity).
    do 2 right. by left. }
  assert (Hp : p ∈ classify always d n).
  { replace (classify always d n) with [p] by (vm_compute; reflexivity).
    by apply list_elem_of_singleton. }
  split; [done|].
  apply (@top_level_token_reported Model.requires always noOptions [d] d n p);
    [vm_compute; reflexivity | by left | decided | reflexivity | done
    | reflexivity | reflexivity | reflexivity | decided | done].
Defined.

(** X8, on [calc(red)]: the word inside the function is reached. *)
Lemma full_traversal_without_pruning_witness :
  let d := Model.color "calc(red)" in
  let inner := Model.word "red" 5 in
  let outer := Model.call "calc" "calc(red)" 0 [inner] in
  optionsMatches noOptions "ignore" "inside-function" = false /\
  walk (visit "never" noOptions d) [outer] =
  flat_map (fun m => VisitNode m :: map Report (visit "never" noOptions d m).1)
    [outer; inner].
Proof.
  intros d inner outer. split; [reflexivity|].
  apply (@full_traversal_without_pruning Model.requires "never" noOptions d
           [outer]); [reflexivity|].
  intros m Hm.
  replace (allNodes [outer]) with [outer; inner] in Hm by reflexivity.
  apply elem_of_cons in Hm as [->|Hm]; [reflexivity|].
  apply list_elem_of_singleton in Hm as ->. reflexivity.
Defined.

(** X9, on a function whose name is an interpolation. *)
Lemma nonstandard_function_subtree_skipped_witness :
  let d := Model.color "#{$f}(red)" in
  let n := Model.call "#{$f}" "#{$f}(red)" 0 [Model.word "red" 6] in
  isStandardSyntaxFunction n = false /\
  walkNode (visit "never" noOptions d) n = [VisitNode n].
Proof.
  intros d n. split; [reflexivity|].
  by apply (@nonstandard_function_subtree_skipped Model.requires).
Defined.

(** X10, on the catalogue of the model. *)
Lemma modes_flag_disjoint_tokens_witness :
  let d := Model.color "red" in
  let n := Model.word "red" 0 in
  catalogWellFormed = true /\
  (classify "never" d n = [] \/ classify always d n = []).
Proof.
  intros d n. split; [vm_compute; reflexivity|].
  apply (modes_flag_disjoint_tokens d n). vm_compute. reflexivity.
Defined.

(** X11, on the declaration [color: red], with and without the option. *)
Lemma options_inert_without_functions_witness :
  let d := Model.color "red" in
  (forall m, m ∈ allNodes (valueParser (declValue d)) ->
     type m <> "function") /\
  checkDecl "never" Model.insideFunction d = checkDecl "never" noOptions d.
Proof.
  intros d.
  assert (Hnone : forall m, m ∈ allNodes (valueParser (declValue d)) ->
                    type m <> "function").
  { intros m Hm.
    replace (allNodes (valueParser (declValue d)))
      with [Model.word "red" 0] in Hm by (vm_compute; reflexivity).
    apply list_elem_of_singleton in Hm as ->. discriminate. }
  split; [done|].
  by apply (@options_inert_without_functions Model.requires).
Defined.

(** X12, on the word [Red] under "never": the message quotes [Red]. *)
Lemma classify_message_by_mode_witness :
  let d := Model.color "Red" in
  let n := Model.word "Red" 0 in
  let p := mkProblem ("Unexpected named color " +:+ Model.quoted "Red") d 0 in
  p ∈ classify "never" d n /\
  ((("never" : string) = "never" /\ type n = "word" /\
    message p = messages_rejected (value n)) \/
   (("never" : string) = always /\
    exists c, c ∈ namedColors /\ tokenMatches c n = true /\
      message p = messages_expected c (original n))).
Proof.
  intros d n p.
  assert (Hp : p ∈ classify "never" d n).
  { replace (classify "never" d n) with [p] by (vm_compute; reflexivity).
    by apply list_elem_of_singleton. }
  split; [done|].
  by apply (classify_message_by_mode "never" d n p).
Defined.

End CoverageScenarios.
